(** * schema/schema.go: document validation, patch gating and serialization

    A shallow embedding of [Schema.Validate],
    [Schema.ValidatePatchOperationValue], [findAttribute],
    [cannotBePatched] and [Schema.MarshalJSON], with the properties the
    design document states about them. *)

From Stdlib Require Import Ascii String.
From stdpp Require Import gmap strings list fin_maps.

Set Warnings "-register-all,-clear-no-such-hyp".

Open Scope string_scope.
Open Scope list_scope.

(** ** Data model *)

(** A Go [interface{}] holding a decoded JSON value.  [VNil] is the nil
    interface: both a JSON null and the zero value of [var hit interface{}].
    [VMap] is a [map[string]interface{}]. *)
Inductive Value : Type :=
  | VNil
  | VBool (b : bool)
  | VNumber (n : Z)
  | VString (s : string)
  | VSlice (l : list Value)
  | VMap (m : gmap string Value).

(** Modelled from the spec: [errors.ValidationError] is declared in the
    errors package; the design document gives it as a closed enumeration of
    a success sentinel, a syntax failure and a value failure. *)
Inductive ValidationError : Type :=
  | ValidationErrorNil
  | ValidationErrorInvalidSyntax
  | ValidationErrorInvalidValue.

#[global] Instance ValidationError_eq_dec : EqDecision ValidationError.
Proof. solve_decision. Defined.

(** Modelled from the spec: [attributeMutability] is declared next to
    [CoreAttribute]; the design document lists its four classes. *)
Inductive attributeMutability : Type :=
  | attributeMutabilityImmutable
  | attributeMutabilityReadOnly
  | attributeMutabilityReadWrite
  | attributeMutabilityWriteOnly.

#[global] Instance attributeMutability_eq_dec : EqDecision attributeMutability.
Proof. solve_decision. Defined.

(** Modelled from the spec: [optional.String] is the optional-value wrapper;
    [Value()] is the wrapped string, the zero string when absent. *)
Definition optional_String : Type := option string.

Definition optional_Value (s : optional_String) : string := default "" s.

(** [filter.Path] of the path-expression parser, as far as schema.go reads
    it: the attribute name and the remaining sub-path. *)
Record Path : Type := mkPath {
  AttributeName : string;
  SubAttribute : string
}.

(** Modelled from the spec: [CoreAttribute] is declared outside this file.
    schema.go reads its [name], [mutability] and [subAttributes] fields and
    calls its [validate] and [getRawAttributes] methods; the two methods are
    carried as fields, one capability per attribute definition.
    [getRawAttributes] returns a [map[string]interface{}]. *)
Inductive CoreAttribute : Type := mkCoreAttribute {
  name : string;
  mutability : attributeMutability;
  subAttributes : list CoreAttribute;
  validate : Value → Value * ValidationError;
  getRawAttributes : gmap string Value
}.

Record Schema : Type := mkSchema {
  Attributes : list CoreAttribute;
  Description : optional_String;
  ID : string;
  Name : optional_String
}.

(** The values held by the map literal of [MarshalJSON]: a Go string, an
    [optional.String] struct, and a [[]map[string]interface{}]. *)
Inductive Rendered : Type :=
  | RString (s : string)
  | ROptional (o : optional_String)
  | RAttributes (l : list (gmap string Value)).

(** ** The mutability guard *)

Definition isImmutable (op : string) (attr : CoreAttribute) : bool :=
  bool_decide (mutability attr = attributeMutabilityImmutable)
  && (String.eqb op "replace" || String.eqb op "remove").

Definition isReadOnly (attr : CoreAttribute) : bool :=
  bool_decide (mutability attr = attributeMutabilityReadOnly).

Definition cannotBePatched (op : string) (attr : CoreAttribute) : bool :=
  isImmutable op attr || isReadOnly attr.

(** The decision table of the design document, by mutability class and
    operation kind. *)
Definition blocked_table (op : string) (m : attributeMutability) : bool :=
  match m with
  | attributeMutabilityReadOnly => true
  | attributeMutabilityImmutable =>
      if decide (op = "replace") then true
      else if decide (op = "remove") then true
      else false
  | attributeMutabilityReadWrite => false
  | attributeMutabilityWriteOnly => false
  end.

(** ** Serialization *)

(** The loop of [Schema.getRawAttributes]: [attributes[i] = a.getRawAttributes()]
    for the attributes from index [i] on. *)
Fixpoint fillRawAttributes (i : nat) (attrs : list CoreAttribute)
    (attributes : list (gmap string Value)) : list (gmap string Value) :=
  match attrs with
  | [] => attributes
  | a :: rest => fillRawAttributes (S i) rest (<[i := getRawAttributes a]> attributes)
  end.

(** [Schema.getRawAttributes]: a slice of [len(s.Attributes)] nil maps, then
    filled by index. *)
Definition Schema_getRawAttributes (s : Schema) : list (gmap string Value) :=
  fillRawAttributes 0 (Attributes s) (replicate (length (Attributes s)) ∅).

(** The map literal of [Schema.MarshalJSON], the argument of [json.Marshal]:
    [s.ID], [s.Name] as the struct it is, [s.Description.Value()] and
    [s.getRawAttributes()]. *)
Definition MarshalJSON_argument (s : Schema) : gmap string Rendered :=
  <["id" := RString (ID s)]>
  (<["name" := ROptional (Name s)]>
  (<["description" := RString (optional_Value (Description s))]>
  (<["attributes" := RAttributes (Schema_getRawAttributes s)]> ∅))).

(** Modelled from the spec: [optional.String] is declared in the optional
    package, a wrapper that schema.go reads through [Value()]: a struct
    with no exported field and no marshalling method of its own.
    [json.Marshal] on a value of the map literal, as the JSON value it
    writes: a Go string is a JSON string; a struct without exported fields
    is the empty object, so an [optional.String] is [{}] whether its string
    is present or absent; a slice of maps is an array of objects. *)
Definition json_Marshal (r : Rendered) : Value :=
  match r with
  | RString str => VString str
  | ROptional _ => VMap ∅
  | RAttributes l => VSlice (VMap <$> l)
  end.

(** [Schema.MarshalJSON]: the JSON object it returns, as the value its
    bytes denote, one member per key of the map literal.  The encoder
    returns no error on these values. *)
Definition MarshalJSON (s : Schema) : gmap string Value :=
  json_Marshal <$> MarshalJSON_argument s.

(** ** Instances for concrete inputs *)

(** ASCII lower-casing of a byte. *)
Definition lowerASCII (c : ascii) : ascii :=
  let n := nat_of_ascii c in
  if (65 <=? n)%nat && (n <=? 90)%nat then ascii_of_nat (n + 32) else c.

Fixpoint lowerString (s : string) : string :=
  match s with
  | EmptyString => EmptyString
  | String c r => String (lowerASCII c) (lowerString r)
  end.

(** [strings.EqualFold] on ASCII strings. *)
Definition EqualFoldASCII (s t : string) : bool :=
  String.eqb (lowerString s) (lowerString t).

(** Splits a string at its first dot. *)
Fixpoint splitDot (s : string) : string * string :=
  match s with
  | EmptyString => (EmptyString, EmptyString)
  | String c r =>
      if Ascii.eqb c "."%char then (EmptyString, r)
      else let '(n, sub) := splitDot r in (String c n, sub)
  end.

(** The parsed form of a plain dotted path, [attr] or [attr.sub]; an empty
    attribute name is a parse error. *)
Definition parseDotted (path : string) : option Path :=
  let '(n, sub) := splitDot path in
  if String.eqb n "" then None else Some (mkPath n sub).

(** A validator that accepts every value, the absent marker included. *)
Definition validateOptional (v : Value) : Value * ValidationError :=
  (v, ValidationErrorNil).

(** A validator of a required attribute: the absent marker is a value
    error. *)
Definition validateRequired (v : Value) : Value * ValidationError :=
  match v with
  | VNil => (VNil, ValidationErrorInvalidValue)
  | _ => (v, ValidationErrorNil)
  end.

(** A validator of an optional string attribute: any other value than a
    string or the absent marker is a value error. *)
Definition validateString (v : Value) : Value * ValidationError :=
  match v with
  | VNil => (VNil, ValidationErrorNil)
  | VString _ => (v, ValidationErrorNil)
  | _ => (VNil, ValidationErrorInvalidValue)
  end.

(** A leaf attribute definition. *)
Definition simpleAttribute (n : string) (m : attributeMutability)
    (check : Value → Value * ValidationError) : CoreAttribute :=
  mkCoreAttribute n m [] check {["name" := VString n]}.

(** A complex attribute definition with sub-attributes. *)
Definition complexAttribute (n : string) (m : attributeMutability)
    (subs : list CoreAttribute) : CoreAttribute :=
  mkCoreAttribute n m subs validateOptional {["name" := VString n]}.

(** A user schema: a required [userName] and a complex [name]. *)
Definition userSchema : Schema :=
  mkSchema
    [ simpleAttribute "userName" attributeMutabilityReadWrite validateRequired;
      complexAttribute "name" attributeMutabilityReadWrite
        [ simpleAttribute "familyName" attributeMutabilityReadWrite validateString;
          simpleAttribute "givenName" attributeMutabilityReadWrite validateString ] ]
    (Some "User Account") "urn:ietf:params:scim:schemas:core:2.0:User" (Some "User").

(** An account schema without display name or description: two required
    attributes, [displayName] declared before [userName]. *)
Definition accountSchema : Schema :=
  mkSchema
    [ simpleAttribute "displayName" attributeMutabilityReadWrite validateRequired;
      simpleAttribute "userName" attributeMutabilityReadWrite validateRequired ]
    None "urn:example:schemas:Account" None.

(** A document with the user name under two keys that differ by case. *)
Definition duplicateDocument : gmap string Value :=
  <["USERNAME" := VString "b"]> {["userName" := VString "a"]}.

(** The same with a display name. *)
Definition namedDuplicateDocument : gmap string Value :=
  <["displayName" := VString "d"]> duplicateDocument.

(** A read-only complex attribute with a read-write sub-attribute. *)
Definition readOnlyName : CoreAttribute :=
  complexAttribute "name" attributeMutabilityReadOnly
    [ simpleAttribute "familyName" attributeMutabilityReadWrite validateString ].

(** A document with a display name only. *)
Definition displayNameDocument : gmap string Value :=
  {["displayName" := VString "d"]}.

(** A document with a user name and an explicit null for [name]. *)
Definition nullNameDocument : gmap string Value :=
  <["name" := VNil]> {["userName" := VString "x"]}.

(** Attribute definitions two of which fold to the same name: a read-write
    [userName] declared before a read-only [USERNAME]. *)
Definition clashingAttributes : list CoreAttribute :=
  [ simpleAttribute "displayName" attributeMutabilityReadWrite validateString;
    simpleAttribute "userName" attributeMutabilityReadWrite validateRequired;
    simpleAttribute "USERNAME" attributeMutabilityReadOnly validateRequired ].

(** ** Validation and path resolution

    [strings.EqualFold] and the path-expression parser are library code; the
    functions below take them as parameters. *)
Section Resolution.

Variable EqualFold : string → string → bool.
Variable ParsePath : string → option Path.

(** The inner loop of [Validate], [for k, v := range core], over the
    entries in the order the iteration visits them.  [None] is the early
    [return nil, errors.ValidationErrorInvalidSyntax]; otherwise the final
    [hit]. *)
Fixpoint scanFields (attrName : string) (core : list (string * Value))
    (found : bool) (hit : Value) : option Value :=
  match core with
  | [] => Some hit
  | (k, v) :: rest =>
      if EqualFold attrName k then
        if found then None else scanFields attrName rest true v
      else scanFields attrName rest found hit
  end.

(** The outer loop of [Validate], [for _, attribute := range s.Attributes],
    threading the output map [attributes]. *)
Fixpoint validateAttributes (attrs : list CoreAttribute) (core : gmap string Value)
    (attributes : gmap string Value) : option (gmap string Value) * ValidationError :=
  match attrs with
  | [] => (Some attributes, ValidationErrorNil)
  | attribute :: rest =>
      match scanFields (name attribute) (map_to_list core) false VNil with
      | None => (None, ValidationErrorInvalidSyntax)
      | Some hit =>
          let '(attr, scimErr) := validate attribute hit in
          if decide (scimErr ≠ ValidationErrorNil) then (None, scimErr)
          else validateAttributes rest core (<[name attribute := attr]> attributes)
      end
  end.

(** [Schema.Validate]. The first component is the returned map, [None] for
    Go's nil map. *)
Definition Validate (s : Schema) (resource : Value)
    : option (gmap string Value) * ValidationError :=
  match resource with
  | VMap core => validateAttributes (Attributes s) core ∅
  | _ => (None, ValidationErrorInvalidSyntax)
  end.

(** The body of [findAttribute], run on the sub-attributes of [parent]:
    the recursive call of the source is on [attr.subAttributes], the
    children of a node of the attribute tree, and the recursion is
    structural in that node.  The first component of the result is the
    returned pointer. *)
Fixpoint findAttributeIn (parent : CoreAttribute) (operation path : string)
    {struct parent} : option CoreAttribute * ValidationError :=
  match ParsePath path with
  | None => (None, ValidationErrorInvalidValue)
  | Some p =>
      (fix range (attributes : list CoreAttribute)
           : option CoreAttribute * ValidationError :=
         match attributes with
         | [] => (None, ValidationErrorInvalidValue)
         | attr :: rest =>
             if EqualFold (name attr) (AttributeName p) then
               if cannotBePatched operation attr then (None, ValidationErrorInvalidValue)
               else if negb (String.eqb (SubAttribute p) "")
                       && bool_decide (0 < length (subAttributes attr))
               then findAttributeIn attr operation (SubAttribute p)
               else (Some attr, ValidationErrorNil)
             else range rest
         end) (subAttributes parent)
  end.

(** [findAttribute] on an attribute list: the list is taken as the children
    of a root node, of which only [subAttributes] is read.  Lemma
    [findAttribute_eq] below gives the recursion equation in the shape of
    the source. *)
Definition findAttribute (operation path : string) (attributes : list CoreAttribute)
    : option CoreAttribute * ValidationError :=
  findAttributeIn
    (mkCoreAttribute "" attributeMutabilityReadWrite attributes
       (λ v, (v, ValidationErrorNil)) ∅)
    operation path.

(** The loop [for _, attr := range attributes] of [findAttribute], for the
    parsed path [p]. *)
Fixpoint rangeAttributes (operation : string) (p : Path)
    (attributes : list CoreAttribute) : option CoreAttribute * ValidationError :=
  match attributes with
  | [] => (None, ValidationErrorInvalidValue)
  | attr :: rest =>
      if EqualFold (name attr) (AttributeName p) then
        if cannotBePatched operation attr then (None, ValidationErrorInvalidValue)
        else if negb (String.eqb (SubAttribute p) "")
                && bool_decide (0 < length (subAttributes attr))
        then findAttribute operation (SubAttribute p) (subAttributes attr)
        else (Some attr, ValidationErrorNil)
      else rangeAttributes operation p rest
  end.

(** The loop of [ValidatePatchOperationValue], [for k, v := range
    operationValue], over the entries in the order the iteration visits
    them.  Next to the returned error it records every call
    [attr.validate(v)] the loop makes, as the attribute's name and the
    value. *)
Fixpoint validatePatchEntries (s : Schema) (operation : string)
    (operationValue : list (string * Value))
    : list (string * Value) * ValidationError :=
  match operationValue with
  | [] => ([], ValidationErrorNil)
  | (k, v) :: rest =>
      let '(attr, err) := findAttribute operation k (Attributes s) in
      if decide (err ≠ ValidationErrorNil) then ([], err)
      else
        match attr with
        | None => ([], ValidationErrorInvalidValue)
        | Some attr =>
            if cannotBePatched operation attr then ([], ValidationErrorInvalidValue)
            else
              let '(calls, scimErr) :=
                if negb (String.eqb operation "remove")
                then ([(name attr, v)], (validate attr v).2)
                else ([], ValidationErrorNil) in
              if decide (scimErr ≠ ValidationErrorNil) then (calls, scimErr)
              else
                let '(calls', e) := validatePatchEntries s operation rest in
                (calls ++ calls', e)
        end
  end.

(** [Schema.ValidatePatchOperationValue]. *)
Definition ValidatePatchOperationValue (s : Schema) (operation : string)
    (operationValue : gmap string Value) : ValidationError :=
  (validatePatchEntries s operation (map_to_list operationValue)).2.

(** ** Notions the properties are stated with *)

(** A document field [k] with [strings.EqualFold(attribute.name, k)]. *)
Definition foldMatch (attrName k : string) : Prop := EqualFold attrName k = true.

(** At most one key of the document matches the attribute name. *)
Definition atMostOneMatch (attrName : string) (core : gmap string Value) : Prop :=
  ∀ k1 k2 : string,
    k1 ∈ dom core → k2 ∈ dom core →
    foldMatch attrName k1 → foldMatch attrName k2 → k1 = k2.

(** [v] is the value of a matching field of the document, or the absent
    marker (the nil interface) when no key matches. *)
Definition matchedValue (attrName : string) (core : gmap string Value) (v : Value) : Prop :=
  (∃ k : string, core !! k = Some v ∧ foldMatch attrName k)
  ∨ (v = VNil ∧ ∀ k : string, k ∈ dom core → ¬ foldMatch attrName k).

(** The attribute's own [validate] accepts the value. *)
Definition accepts (attr : CoreAttribute) (v : Value) : Prop :=
  (validate attr v).2 = ValidationErrorNil.

(** The first attribute of a list whose name matches [n], the attribute the
    loop of [findAttribute] stops at. *)
Fixpoint matchedAttribute (n : string) (attributes : list CoreAttribute)
    : option CoreAttribute :=
  match attributes with
  | [] => None
  | attr :: rest =>
      if EqualFold (name attr) n then Some attr else matchedAttribute n rest
  end.

(** [reaches operation path attributes a]: resolving [path] in [attributes]
    matches the attribute [a], at the first level or, after descending
    through matched attributes the guard lets pass, at a deeper one. *)
Inductive reaches (operation : string)
    : string → list CoreAttribute → CoreAttribute → Prop :=
  | reaches_here (path : string) (attributes : list CoreAttribute) (p : Path)
      (a : CoreAttribute) :
      ParsePath path = Some p →
      matchedAttribute (AttributeName p) attributes = Some a →
      reaches operation path attributes a
  | reaches_below (path : string) (attributes : list CoreAttribute) (p : Path)
      (b a : CoreAttribute) :
      ParsePath path = Some p →
      matchedAttribute (AttributeName p) attributes = Some b →
      cannotBePatched operation b = false →
      SubAttribute p ≠ "" →
      subAttributes b ≠ [] →
      reaches operation (SubAttribute p) (subAttributes b) a →
      reaches operation path attributes a.

(** ** Properties *)

(** *** The scan of the document fields *)

(** The entries of a field list whose key matches the attribute name. *)
Local Abbreviation hits n core :=
  (filter (λ kv : string * Value, EqualFold n kv.1 = true) core).

Lemma hits_cons (n k : string) (v : Value) (core : list (string * Value)) :
  hits n ((k, v) :: core)
  = if EqualFold n k then (k, v) :: hits n core else hits n core.
Proof using EqualFold.
  rewrite filter_cons. simpl.
  destruct (EqualFold n k); [rewrite decide_True | rewrite decide_False]; done.
Qed.

(** Once a field was found, any further match is the duplicate error. *)
Lemma scanFields_found (n : string) (core : list (string * Value)) (hit : Value) :
  scanFields n core true hit
  = match hits n core with [] => Some hit | _ => None end.
Proof using EqualFold.
  induction core as [|[k v] rest IH]; [done|].
  simpl. rewrite hits_cons. destruct (EqualFold n k); done.
Qed.

(** The scan from the start: no match leaves [hit] as it was, one match
    yields its value, two or more are the duplicate error. *)
Lemma scanFields_hits (n : string) (core : list (string * Value)) (hit : Value) :
  scanFields n core false hit
  = match hits n core with
    | [] => Some hit
    | [kv] => Some kv.2
    | _ => None
    end.
Proof using EqualFold.
  induction core as [|[k v] rest IH]; [done|].
  simpl. rewrite hits_cons. destruct (EqualFold n k); [|done].
  rewrite scanFields_found. by destruct (hits n rest).
Qed.

(** The result of the scan does not depend on the order in which the
    iteration visits the fields. *)
Lemma scanFields_Permutation (n : string) (core core' : list (string * Value))
    (hit : Value) :
  core ≡ₚ core' → scanFields n core false hit = scanFields n core' false hit.
Proof using EqualFold.
  intros Hp. rewrite !scanFields_hits.
  assert (Hf : hits n core ≡ₚ hits n core') by (by rewrite Hp).
  destruct (hits n core) as [|x [|y l]].
  - apply Permutation_nil_l in Hf. by rewrite <- Hf.
  - apply Permutation_singleton_l in Hf. by rewrite <- Hf.
  - pose proof (Permutation_length Hf) as Hl.
    destruct (hits n core') as [|x' [|y' l']]; simpl in Hl; done || lia.
Qed.

Lemma elem_of_hits (n k : string) (v : Value) (core : gmap string Value) :
  (k, v) ∈ hits n (map_to_list core) ↔ core !! k = Some v ∧ foldMatch n k.
Proof using EqualFold.
  rewrite list_elem_of_filter, elem_of_map_to_list. unfold foldMatch.
  simpl. split; intros [H1 H2]; by split.
Qed.

Lemma NoDup_hits_keys (n : string) (core : gmap string Value) :
  NoDup (hits n (map_to_list core)).*1.
Proof using EqualFold.
  eapply sublist_NoDup; [apply (NoDup_fst_map_to_list core)|].
  apply fmap_sublist, sublist_filter.
Qed.

(** The scan over a document yields a value exactly when at most one key
    matches, and the value is the matched one or the absent marker. *)
Lemma scanFields_Some (n : string) (core : gmap string Value) (v : Value) :
  scanFields n (map_to_list core) false VNil = Some v
  ↔ atMostOneMatch n core ∧ matchedValue n core v.
Proof using EqualFold.
  rewrite scanFields_hits.
  pose proof (elem_of_hits n) as Hin. specialize (fun k w => Hin k w core).
  pose proof (NoDup_hits_keys n core) as Hnd.
  destruct (hits n (map_to_list core)) as [|[k0 v0] [|[k1 v1] l]].
  - assert (Hnone : ∀ k, k ∈ dom core → ¬ foldMatch n k).
    { intros k [w Hw]%elem_of_dom Hm.
      assert (Hk : (k, w) ∈ @nil (string * Value)) by (by apply Hin).
      by apply not_elem_of_nil in Hk. }
    split.
    + intros [= <-]. split.
      * intros k1 k2 Hk1 _ Hm1 _. by destruct (Hnone k1).
      * by right.
    + intros [_ [(k & Hk & Hm)|[-> _]]]; [|done].
      destruct (Hnone k); [|done]. apply elem_of_dom. eauto.
  - assert (Hone : ∀ k w, core !! k = Some w → foldMatch n k → k = k0 ∧ w = v0).
    { intros k w Hw Hm.
      assert (Hk : (k, w) ∈ [(k0, v0)]) by (by apply Hin).
      apply list_elem_of_singleton in Hk. by inversion Hk. }
    assert (H0 : core !! k0 = Some v0 ∧ foldMatch n k0).
    { apply Hin. by left. }
    destruct H0 as [H0 Hm0]. simpl. split.
    + intros [= <-]. split.
      * intros k1 k2 [w1 Hw1]%elem_of_dom [w2 Hw2]%elem_of_dom Hm1 Hm2.
        destruct (Hone _ _ Hw1 Hm1) as [-> _].
        by destruct (Hone _ _ Hw2 Hm2) as [-> _].
      * left. eauto.
    + intros [_ [(k & Hk & Hm)|[_ Hnone]]].
      * by destruct (Hone _ _ Hk Hm) as [_ ->].
      * destruct (Hnone k0); [|done]. apply elem_of_dom. eauto.
  - split; [done|]. intros [Hat _]. exfalso.
    assert (H0 : core !! k0 = Some v0 ∧ foldMatch n k0).
    { apply Hin. by left. }
    assert (H1 : core !! k1 = Some v1 ∧ foldMatch n k1).
    { apply Hin. right. by left. }
    destruct H0 as [H0 Hm0], H1 as [H1 Hm1].
    assert (k0 = k1) as ->.
    { apply Hat; try done; apply elem_of_dom; eauto. }
    simpl in Hnd. apply NoDup_cons in Hnd as [Hnd _].
    apply Hnd. by left.
Qed.

(** The scan fails exactly when two distinct keys match. *)
Lemma scanFields_None (n : string) (core : gmap string Value) :
  scanFields n (map_to_list core) false VNil = None
  ↔ ∃ k1 k2 : string,
      k1 ≠ k2 ∧ k1 ∈ dom core ∧ k2 ∈ dom core ∧ foldMatch n k1 ∧ foldMatch n k2.
Proof using EqualFold.
  split.
  - rewrite scanFields_hits.
    pose proof (elem_of_hits n) as Hin. specialize (fun k w => Hin k w core).
    pose proof (NoDup_hits_keys n core) as Hnd.
    destruct (hits n (map_to_list core)) as [|[k0 v0] [|[k1 v1] l]]; [done..|].
    intros _.
    assert (H0 : core !! k0 = Some v0 ∧ foldMatch n k0).
    { apply Hin. by left. }
    assert (H1 : core !! k1 = Some v1 ∧ foldMatch n k1).
    { apply Hin. right. by left. }
    destruct H0 as [H0 Hm0], H1 as [H1 Hm1].
    exists k0, k1. repeat split; try done; try (apply elem_of_dom; eauto).
    intros ->. simpl in Hnd. apply NoDup_cons in Hnd as [Hnd _].
    apply Hnd. by left.
  - intros (k1 & k2 & Hne & Hk1 & Hk2 & Hm1 & Hm2).
    destruct (scanFields n (map_to_list core) false VNil) as [v|] eqn:E; [|done].
    apply scanFields_Some in E as [Hat _].
    destruct Hne. by apply Hat.
Qed.

(** Adding a field whose key does not match the attribute name leaves the
    scan as it was, whether or not the key was already in the document. *)
Lemma scanFields_insert_unmatched (n k : string) (v : Value)
    (core : gmap string Value) :
  EqualFold n k = false →
  scanFields n (map_to_list (<[k:=v]> core)) false VNil
  = scanFields n (map_to_list core) false VNil.
Proof using EqualFold.
  intros Hk.
  assert (Hdel : ∀ w, scanFields n (map_to_list (<[k:=w]> (delete k core))) false VNil
                      = scanFields n (map_to_list (delete k core)) false VNil).
  { intros w.
    rewrite (scanFields_Permutation n _ ((k, w) :: map_to_list (delete k core))).
    - simpl. by rewrite Hk.
    - apply map_to_list_insert, lookup_delete_eq. }
  rewrite <- (insert_delete_eq core k v), Hdel.
  destruct (core !! k) as [w|] eqn:E.
  - rewrite <- (Hdel w), insert_delete_eq, insert_id; done.
  - by rewrite delete_id.
Qed.

(** The scan of a one-field document. *)
Lemma scanFields_singleton (n k : string) (v : Value) :
  scanFields n (map_to_list ({[k := v]} : gmap string Value)) false VNil
  = if EqualFold n k then Some v else Some VNil.
Proof using EqualFold. rewrite map_to_list_singleton. simpl. by destruct (EqualFold n k). Qed.

(** *** The loop over the declared attributes *)

(** The loop returns a map with the success sentinel, or no map with an
    error. *)
Lemma validateAttributes_outcome (attrs : list CoreAttribute)
    (core attributes : gmap string Value) :
  (∃ out, validateAttributes attrs core attributes = (Some out, ValidationErrorNil))
  ∨ (∃ e, e ≠ ValidationErrorNil ∧ validateAttributes attrs core attributes = (None, e)).
Proof using EqualFold.
  revert attributes. induction attrs as [|a rest IH]; intros attributes; simpl.
  - left. eauto.
  - destruct (scanFields (name a) (map_to_list core) false VNil) as [hit|].
    + destruct (validate a hit) as [attr scimErr].
      destruct (decide (scimErr ≠ ValidationErrorNil)); [|apply IH].
      right. eauto.
    + right. by exists ValidationErrorInvalidSyntax.
Qed.

(** The loop succeeds exactly when every attribute's scan yields a value
    and the attribute accepts it. *)
Lemma validateAttributes_success (attrs : list CoreAttribute)
    (core attributes : gmap string Value) :
  (∃ out, validateAttributes attrs core attributes = (Some out, ValidationErrorNil))
  ↔ ∀ a, a ∈ attrs →
      ∃ v, scanFields (name a) (map_to_list core) false VNil = Some v ∧ accepts a v.
Proof using EqualFold.
  revert attributes. induction attrs as [|a rest IH]; intros attributes; simpl.
  - split; [|by eauto]. intros _ a Ha. by apply not_elem_of_nil in Ha.
  - unfold accepts.
    destruct (scanFields (name a) (map_to_list core) false VNil) as [hit|] eqn:Es.
    + destruct (validate a hit) as [attr scimErr] eqn:Ev.
      destruct (decide (scimErr ≠ ValidationErrorNil)) as [Hne|Heq].
      * split; [by intros [out [=]]|]. intros Hall.
        destruct (Hall a) as (v & Hv & Hacc); [by left|].
        rewrite Es in Hv. injection Hv as <-. rewrite Ev in Hacc. done.
      * apply dec_stable in Heq. rewrite IH. split.
        -- intros Hall b [->|Hb]%elem_of_cons; [|by apply Hall].
           exists hit. by rewrite Es, Ev.
        -- intros Hall b Hb. apply Hall. by right.
    + split; [by intros [out [=]]|]. intros Hall.
      destruct (Hall a) as (v & Hv & _); [by left|].
      by rewrite Es in Hv.
Qed.

(** On success the output map holds the keys it started with and the name
    of every declared attribute. *)
Lemma validateAttributes_dom (attrs : list CoreAttribute)
    (core attributes out : gmap string Value) (e : ValidationError) :
  validateAttributes attrs core attributes = (Some out, e) →
  dom out = dom attributes ∪ list_to_set (name <$> attrs).
Proof using EqualFold.
  revert attributes. induction attrs as [|a rest IH]; intros attributes; simpl.
  - intros [= <- _]. clear ParsePath; set_solver.
  - destruct (scanFields (name a) (map_to_list core) false VNil) as [hit|]; [|done].
    destruct (validate a hit) as [attr scimErr].
    destruct (decide (scimErr ≠ ValidationErrorNil)); [done|].
    intros Hout. rewrite (IH _ Hout), dom_insert_L. clear ParsePath; set_solver.
Qed.

(** The loop reads the document only through the scans. *)
Lemma validateAttributes_ext (attrs : list CoreAttribute)
    (core core' attributes : gmap string Value) :
  (∀ a, a ∈ attrs →
     scanFields (name a) (map_to_list core) false VNil
     = scanFields (name a) (map_to_list core') false VNil) →
  validateAttributes attrs core attributes = validateAttributes attrs core' attributes.
Proof using EqualFold.
  revert attributes. induction attrs as [|a rest IH]; intros attributes Hs; [done|].
  simpl. rewrite <- (Hs a) by (by left).
  destruct (scanFields (name a) (map_to_list core) false VNil) as [hit|]; [|done].
  destruct (validate a hit) as [attr scimErr].
  destruct (decide (scimErr ≠ ValidationErrorNil)); [done|].
  apply IH. intros b Hb. apply Hs. by right.
Qed.

(** An attribute with two matching keys, behind attributes [pre]: the loop
    returns no map, and the error is the syntax error unless an earlier
    attribute rejects the value passed to it. *)
Lemma validateAttributes_duplicate (pre post : list CoreAttribute)
    (a : CoreAttribute) (core attributes : gmap string Value) :
  scanFields (name a) (map_to_list core) false VNil = None →
  ∃ e, validateAttributes (pre ++ a :: post) core attributes = (None, e)
       ∧ e ≠ ValidationErrorNil
       ∧ ((∀ b v, b ∈ pre → matchedValue (name b) core v → accepts b v) →
          e = ValidationErrorInvalidSyntax).
Proof using EqualFold.
  intros Hdup. revert attributes.
  induction pre as [|b pre IH]; intros attributes; simpl.
  - rewrite Hdup. by exists ValidationErrorInvalidSyntax.
  - destruct (scanFields (name b) (map_to_list core) false VNil) as [hit|] eqn:Es.
    + destruct (validate b hit) as [attr scimErr] eqn:Ev.
      destruct (decide (scimErr ≠ ValidationErrorNil)) as [Hne|Heq].
      * exists scimErr. split_and!; [done..|]. intros Hacc. exfalso.
        apply scanFields_Some in Es as [_ Hv].
        apply Hne. specialize (Hacc b hit). unfold accepts in Hacc.
        rewrite Ev in Hacc. apply Hacc; [by left|done].
      * destruct (IH (<[name b := attr]> attributes)) as (e & He & Hnil & Hsyn).
        exists e. split_and!; [done..|]. intros Hacc. apply Hsyn.
        intros c v Hc. apply Hacc. by right.
    + by exists ValidationErrorInvalidSyntax.
Qed.

(** *** Whole-document validation *)

(** C1. [Validate] succeeds exactly when the resource is a map, every
    declared attribute has at most one key of the map matching its name
    under [EqualFold], and every declared attribute accepts the value of its
    matching field, or the absent marker when no key matches. *)
Theorem Validate_succeeds_iff (s : Schema) (resource : Value) :
  (∃ out, Validate s resource = (Some out, ValidationErrorNil))
  ↔ ∃ core : gmap string Value,
      resource = VMap core
      ∧ ∀ a, a ∈ Attributes s →
          atMostOneMatch (name a) core
          ∧ ∃ v, matchedValue (name a) core v ∧ accepts a v.
Proof using EqualFold.
  destruct resource as [| | | | |core];
    try (split; [by intros [out [=]] | by intros (core & [=] & _)]).
  simpl. rewrite validateAttributes_success. split.
  - intros Hall. exists core. split; [done|]. intros a Ha.
    destruct (Hall a Ha) as (v & Hv & Hacc).
    apply scanFields_Some in Hv as [Hat Hv]. eauto.
  - intros (core' & [= <-] & Hall) a Ha.
    destruct (Hall a Ha) as (Hat & v & Hv & Hacc).
    exists v. split; [|done]. by apply scanFields_Some.
Qed.

(** C5, amended. When two distinct keys of the document match the name of a
    declared attribute, [Validate] returns no map and an error; the error
    is the syntax error whenever every attribute declared before that one
    accepts the value passed to it. *)
Theorem Validate_duplicate_keys (s : Schema) (pre post : list CoreAttribute)
    (a : CoreAttribute) (core : gmap string Value) (k1 k2 : string) :
  Attributes s = pre ++ a :: post →
  k1 ≠ k2 → k1 ∈ dom core → k2 ∈ dom core →
  foldMatch (name a) k1 → foldMatch (name a) k2 →
  ∃ e, Validate s (VMap core) = (None, e)
       ∧ e ≠ ValidationErrorNil
       ∧ ((∀ b v, b ∈ pre → matchedValue (name b) core v → accepts b v) →
          e = ValidationErrorInvalidSyntax).
Proof using EqualFold.
  intros Hs Hne Hk1 Hk2 Hm1 Hm2. simpl. rewrite Hs.
  apply validateAttributes_duplicate, scanFields_None.
  exists k1, k2. done.
Qed.

(** C6. For an [EqualFold] that is symmetric and transitive and relates
    ["USERNAME"] and ["userName"], the one-field documents under either key
    have the same outcome against every schema: the same error, or the
    same output map. *)
Theorem Validate_key_case (s : Schema) (v : Value) :
  (∀ x y, EqualFold x y = true → EqualFold y x = true) →
  (∀ x y z, EqualFold x y = true → EqualFold y z = true → EqualFold x z = true) →
  EqualFold "USERNAME" "userName" = true →
  Validate s (VMap {["USERNAME" := v]}) = Validate s (VMap {["userName" := v]}).
Proof using EqualFold.
  intros Hsym Htrans Hfold. simpl. apply validateAttributes_ext.
  intros a _. rewrite !scanFields_singleton.
  destruct (EqualFold (name a) "USERNAME") eqn:E1,
           (EqualFold (name a) "userName") eqn:E2; try done.
  - by rewrite (Htrans _ _ _ E1 Hfold) in E2.
  - by rewrite (Htrans _ _ _ E2 (Hsym _ _ Hfold)) in E1.
Qed.

(** C7. A resource that is not a map, be it a scalar, a slice or nil, makes
    [Validate] return no map and the syntax error. *)
Theorem Validate_not_a_map (s : Schema) (resource : Value) :
  (∀ core, resource ≠ VMap core) →
  Validate s resource = (None, ValidationErrorInvalidSyntax).
Proof using EqualFold.
  intros Hnot. destruct resource as [| | | | |core]; try done.
  by destruct (Hnot core).
Qed.

(** C10. A field whose key matches no declared attribute name does not
    change the result of [Validate], and on success the keys of the output
    map are exactly the declared top-level attribute names. *)
Theorem Validate_ignores_undeclared (s : Schema) (core : gmap string Value)
    (k : string) (v : Value) :
  (∀ a, a ∈ Attributes s → EqualFold (name a) k = false) →
  Validate s (VMap (<[k:=v]> core)) = Validate s (VMap core)
  ∧ ∀ resource out e,
      Validate s resource = (Some out, e) →
      dom out = list_to_set (name <$> Attributes s).
Proof using EqualFold.
  intros Hk. split.
  - simpl. apply validateAttributes_ext. intros a Ha.
    by apply scanFields_insert_unmatched, Hk.
  - intros resource out e. destruct resource as [| | | | |core']; try done.
    simpl. intros Hout. rewrite (validateAttributes_dom _ _ _ _ _ Hout).
    clear ParsePath; set_solver.
Qed.

(** *** Path resolution *)

Lemma findAttributeIn_children (parent : CoreAttribute) (operation path : string) :
  findAttributeIn parent operation path
  = findAttribute operation path (subAttributes parent).
Proof. destruct parent; reflexivity. Qed.

(** The recursion equation of [findAttribute], as the source has it. *)
Lemma findAttribute_eq (operation path : string) (attributes : list CoreAttribute) :
  findAttribute operation path attributes =
  match ParsePath path with
  | None => (None, ValidationErrorInvalidValue)
  | Some p => rangeAttributes operation p attributes
  end.
Proof.
  unfold findAttribute at 1. simpl.
  destruct (ParsePath path) as [p|]; [|reflexivity].
  induction attributes as [|attr rest IH]; simpl; [reflexivity|].
  rewrite findAttributeIn_children, IH. reflexivity.
Qed.

(** The loop stops at the first attribute whose name matches. *)
Lemma rangeAttributes_matched (operation : string) (p : Path)
    (attributes : list CoreAttribute) :
  rangeAttributes operation p attributes =
  match matchedAttribute (AttributeName p) attributes with
  | None => (None, ValidationErrorInvalidValue)
  | Some attr =>
      if cannotBePatched operation attr then (None, ValidationErrorInvalidValue)
      else if negb (String.eqb (SubAttribute p) "")
              && bool_decide (0 < length (subAttributes attr))
      then findAttribute operation (SubAttribute p) (subAttributes attr)
      else (Some attr, ValidationErrorNil)
  end.
Proof.
  induction attributes as [|attr rest IH]; simpl; [done|].
  by destruct (EqualFold (name attr) (AttributeName p)).
Qed.

(** Resolution at a matched attribute that the guard blocks. *)
Lemma findAttribute_blocked (operation path : string) (p : Path)
    (attributes : list CoreAttribute) (a : CoreAttribute) :
  ParsePath path = Some p →
  matchedAttribute (AttributeName p) attributes = Some a →
  cannotBePatched operation a = true →
  findAttribute operation path attributes = (None, ValidationErrorInvalidValue).
Proof.
  intros Hp Hm Hb.
  by rewrite findAttribute_eq, Hp, rangeAttributes_matched, Hm, Hb.
Qed.

(** Resolution descends when a sub-path remains and the matched attribute
    has sub-attributes. *)
Lemma findAttribute_descend (operation path : string) (p : Path)
    (attributes : list CoreAttribute) (a : CoreAttribute) :
  ParsePath path = Some p →
  matchedAttribute (AttributeName p) attributes = Some a →
  cannotBePatched operation a = false →
  SubAttribute p ≠ "" →
  subAttributes a ≠ [] →
  findAttribute operation path attributes
  = findAttribute operation (SubAttribute p) (subAttributes a).
Proof.
  intros Hp Hm Hb Hsub Hch.
  rewrite findAttribute_eq, Hp, rangeAttributes_matched, Hm, Hb.
  apply String.eqb_neq in Hsub. rewrite Hsub. simpl.
  rewrite bool_decide_true; [done|].
  destruct (subAttributes a); [done | simpl; lia].
Qed.

(** Resolution stops at the matched attribute when no sub-path remains. *)
Lemma findAttribute_stop (operation path : string) (p : Path)
    (attributes : list CoreAttribute) (a : CoreAttribute) :
  ParsePath path = Some p →
  matchedAttribute (AttributeName p) attributes = Some a →
  cannotBePatched operation a = false →
  SubAttribute p = "" →
  findAttribute operation path attributes = (Some a, ValidationErrorNil).
Proof.
  intros Hp Hm Hb Hsub.
  by rewrite findAttribute_eq, Hp, rangeAttributes_matched, Hm, Hb, Hsub.
Qed.

(** Resolution fails when no attribute name matches. *)
Lemma findAttribute_unmatched (operation path : string) (p : Path)
    (attributes : list CoreAttribute) :
  ParsePath path = Some p →
  matchedAttribute (AttributeName p) attributes = None →
  findAttribute operation path attributes = (None, ValidationErrorInvalidValue).
Proof.
  intros Hp Hm. by rewrite findAttribute_eq, Hp, rangeAttributes_matched, Hm.
Qed.

(** C3. When resolution matches, at any level of the descent, an attribute
    that the mutability guard blocks for the operation, it returns no
    attribute and the value error, whatever sub-path remains and whatever
    the mutability of the sub-attributes. *)
Theorem findAttribute_blocked_parent (operation path : string)
    (attributes : list CoreAttribute) (a : CoreAttribute) :
  reaches operation path attributes a →
  cannotBePatched operation a = true →
  findAttribute operation path attributes = (None, ValidationErrorInvalidValue).
Proof.
  intros Hr Hb.
  induction Hr as [path attributes p a Hp Hm
                  |path attributes p b a Hp Hm Hnb Hsub Hch Hr IH].
  - by apply (findAttribute_blocked _ _ p _ a).
  - rewrite (findAttribute_descend _ _ p _ b) by done. by apply IH.
Qed.

(** C8. With paths parsed into attribute name and sub-path, an attribute
    matching ["name"] that has a sub-attribute matching ["familyName"] and
    none matching ["bogus"], and an operation the guard lets pass on both:
    ["name.familyName"] resolves to the sub-attribute, and ["name.bogus"]
    to no attribute and the value error. *)
Theorem findAttribute_nested (operation : string)
    (attributes : list CoreAttribute) (parent child : CoreAttribute) :
  ParsePath "name.familyName" = Some (mkPath "name" "familyName") →
  ParsePath "familyName" = Some (mkPath "familyName" "") →
  ParsePath "name.bogus" = Some (mkPath "name" "bogus") →
  ParsePath "bogus" = Some (mkPath "bogus" "") →
  matchedAttribute "name" attributes = Some parent →
  matchedAttribute "familyName" (subAttributes parent) = Some child →
  matchedAttribute "bogus" (subAttributes parent) = None →
  cannotBePatched operation parent = false →
  cannotBePatched operation child = false →
  findAttribute operation "name.familyName" attributes
    = (Some child, ValidationErrorNil)
  ∧ findAttribute operation "name.bogus" attributes
    = (None, ValidationErrorInvalidValue).
Proof.
  intros Hp1 Hp2 Hp3 Hp4 Hparent Hchild Hbogus Hnb Hnbc.
  assert (Hch : subAttributes parent ≠ []).
  { intros E. by rewrite E in Hchild. }
  split.
  - rewrite (findAttribute_descend _ _ _ _ parent Hp1) by done. simpl.
    by apply (findAttribute_stop _ _ _ _ child Hp2).
  - rewrite (findAttribute_descend _ _ _ _ parent Hp3) by done. simpl.
    by apply (findAttribute_unmatched _ _ _ _ Hp4).
Qed.

(** *** Patch validation *)

(** For ["remove"] the loop never calls an attribute's [validate]. *)
Lemma validatePatchEntries_remove_calls (s : Schema)
    (operationValue : list (string * Value)) :
  (validatePatchEntries s "remove" operationValue).1 = [].
Proof.
  induction operationValue as [|[k v] rest IH]; simpl; [done|].
  destruct (findAttribute "remove" k (Attributes s)) as [attr err].
  destruct (decide (err ≠ ValidationErrorNil)); [done|].
  destruct attr as [attr|]; [|done].
  destruct (cannotBePatched "remove" attr); [done|].
  destruct (validatePatchEntries s "remove" rest) as [calls e].
  simpl in *. by rewrite IH.
Qed.

(** For ["remove"] the loop succeeds when every path resolves. *)
Lemma validatePatchEntries_remove (s : Schema)
    (operationValue : list (string * Value)) :
  (∀ k v, (k, v) ∈ operationValue →
     ∃ a, findAttribute "remove" k (Attributes s) = (Some a, ValidationErrorNil)
          ∧ cannotBePatched "remove" a = false) →
  validatePatchEntries s "remove" operationValue = ([], ValidationErrorNil).
Proof.
  induction operationValue as [|[k v] rest IH]; intros Hall; simpl; [done|].
  destruct (Hall k v) as (a & -> & ->); [by left|]. simpl.
  rewrite IH; [done|]. intros k' v' Hin. apply (Hall k' v'). by right.
Qed.

(** C4. For the operation ["remove"], when every path of the instruction
    resolves to an attribute that the guard does not block, the loop, in
    whatever order it visits the entries, makes no call of an attribute's
    [validate] and returns the success sentinel, whatever the values are. *)
Theorem ValidatePatchOperationValue_remove (s : Schema)
    (operationValue : gmap string Value) (entries : list (string * Value)) :
  entries ≡ₚ map_to_list operationValue →
  (∀ k v, operationValue !! k = Some v →
     ∃ a, findAttribute "remove" k (Attributes s) = (Some a, ValidationErrorNil)
          ∧ cannotBePatched "remove" a = false) →
  validatePatchEntries s "remove" entries = ([], ValidationErrorNil)
  ∧ ValidatePatchOperationValue s "remove" operationValue = ValidationErrorNil.
Proof.
  intros Hperm Hall. split.
  - apply validatePatchEntries_remove. intros k v Hin. apply (Hall k v).
    apply elem_of_map_to_list. by rewrite <- Hperm.
  - unfold ValidatePatchOperationValue.
    rewrite validatePatchEntries_remove; [done|].
    intros k v Hin. apply (Hall k v). by apply elem_of_map_to_list.
Qed.

(** *** Further properties of whole-document validation *)

(** The scan of the empty document finds nothing. *)
Lemma scanFields_empty (n : string) :
  scanFields n (map_to_list (∅ : gmap string Value)) false VNil = Some VNil.
Proof using EqualFold. by rewrite map_to_list_empty. Qed.

(** The scan of a document, with one of its fields taken out in front. *)
Lemma scanFields_delete (n k : string) (v : Value) (core : gmap string Value) :
  core !! k = Some v →
  scanFields n (map_to_list core) false VNil
  = scanFields n ((k, v) :: map_to_list (delete k core)) false VNil.
Proof using EqualFold.
  intros Hk. apply scanFields_Permutation.
  symmetry. by apply map_to_list_delete.
Qed.

(** The loop leaves alone the keys of the output map that no declared
    attribute is named after. *)
Lemma validateAttributes_other (attrs : list CoreAttribute)
    (core attributes out : gmap string Value) (e : ValidationError) (k : string) :
  validateAttributes attrs core attributes = (Some out, e) →
  k ∉ name <$> attrs →
  out !! k = attributes !! k.
Proof using EqualFold.
  revert attributes. induction attrs as [|a rest IH]; intros attributes; simpl.
  - by intros [= <- _] _.
  - destruct (scanFields (name a) (map_to_list core) false VNil) as [hit|]; [|done].
    destruct (validate a hit) as [attr scimErr].
    destruct (decide (scimErr ≠ ValidationErrorNil)); [done|].
    intros Hout [Hne Hk]%not_elem_of_cons.
    rewrite (IH _ Hout Hk). by rewrite lookup_insert_ne.
Qed.

(** The value the loop stores for an attribute that no later attribute
    shares its name with. *)
Lemma validateAttributes_value (pre post : list CoreAttribute) (a : CoreAttribute)
    (core attributes out : gmap string Value) (e : ValidationError) :
  validateAttributes (pre ++ a :: post) core attributes = (Some out, e) →
  name a ∉ name <$> post →
  ∃ hit, scanFields (name a) (map_to_list core) false VNil = Some hit
         ∧ out !! name a = Some (validate a hit).1.
Proof using EqualFold.
  revert attributes. induction pre as [|b pre IH]; intros attributes; simpl.
  - destruct (scanFields (name a) (map_to_list core) false VNil) as [hit|]; [|done].
    destruct (validate a hit) as [attr scimErr] eqn:Ev.
    destruct (decide (scimErr ≠ ValidationErrorNil)); [done|].
    intros Hout Hpost. exists hit. split; [done|].
    rewrite (validateAttributes_other _ _ _ _ _ _ Hout Hpost).
    by rewrite lookup_insert_eq, Ev.
  - destruct (scanFields (name b) (map_to_list core) false VNil) as [hit|]; [|done].
    destruct (validate b hit) as [attr scimErr].
    destruct (decide (scimErr ≠ ValidationErrorNil)); [done|].
    apply IH.
Qed.

(** The loop behind attributes that all pass, at an attribute whose own
    check fails. *)
Lemma validateAttributes_first_failure (pre post : list CoreAttribute)
    (a : CoreAttribute) (core attributes : gmap string Value)
    (hit : Value) (e : ValidationError) :
  (∀ b, b ∈ pre →
     ∃ v, scanFields (name b) (map_to_list core) false VNil = Some v ∧ accepts b v) →
  scanFields (name a) (map_to_list core) false VNil = Some hit →
  (validate a hit).2 = e → e ≠ ValidationErrorNil →
  validateAttributes (pre ++ a :: post) core attributes = (None, e).
Proof using EqualFold.
  intros Hpre Hscan He Hne. revert attributes.
  induction pre as [|b pre IH]; intros attributes; simpl.
  - rewrite Hscan. destruct (validate a hit) as [attr scimErr]. simpl in He.
    subst scimErr. by rewrite decide_True.
  - destruct (Hpre b) as (v & -> & Hacc); [by left|].
    unfold accepts in Hacc. destruct (validate b v) as [attr scimErr].
    simpl in Hacc. subst scimErr. rewrite decide_False by (by intros []).
    apply IH. intros c Hc. apply Hpre. by right.
Qed.

(** X4. [Validate] returns a map together with the success sentinel, or no
    map together with an error: never a map with an error, never neither. *)
Theorem Validate_no_partial_result (s : Schema) (resource : Value) :
  (∃ out, Validate s resource = (Some out, ValidationErrorNil))
  ∨ (∃ e, e ≠ ValidationErrorNil ∧ Validate s resource = (None, e)).
Proof using EqualFold.
  destruct resource as [| | | | |core];
    try (right; by exists ValidationErrorInvalidSyntax).
  apply validateAttributes_outcome.
Qed.

(** X5. The error of the first declared attribute whose own [validate]
    rejects its value is returned as it is: when every attribute declared
    before [a] has at most one matching key and accepts its value, and [a]
    has at most one matching key and its [validate] returns the error [e]
    on the matched value, [Validate] returns no map and [e]. *)
Theorem Validate_first_failure (s : Schema) (pre post : list CoreAttribute)
    (a : CoreAttribute) (core : gmap string Value) (v : Value)
    (e : ValidationError) :
  Attributes s = pre ++ a :: post →
  (∀ b, b ∈ pre →
     atMostOneMatch (name b) core ∧ ∃ w, matchedValue (name b) core w ∧ accepts b w) →
  atMostOneMatch (name a) core →
  matchedValue (name a) core v →
  (validate a v).2 = e → e ≠ ValidationErrorNil →
  Validate s (VMap core) = (None, e).
Proof using EqualFold.
  intros Hs Hpre Hat Hv He Hne. simpl. rewrite Hs.
  apply (validateAttributes_first_failure _ _ _ _ _ v); try done.
  - intros b Hb. destruct (Hpre b Hb) as (Hatb & w & Hw & Hacc).
    exists w. split; [|done]. by apply scanFields_Some.
  - by apply scanFields_Some.
Qed.

(** X6. On success the output map holds, under the declared name of an
    attribute that no later attribute shares its name with, the first
    component of what that attribute's [validate] returns on its matched
    value; among attributes declared under one name the last one wins. *)
Theorem Validate_output_value (s : Schema) (pre post : list CoreAttribute)
    (a : CoreAttribute) (core out : gmap string Value) (e : ValidationError) :
  Attributes s = pre ++ a :: post →
  name a ∉ name <$> post →
  Validate s (VMap core) = (Some out, e) →
  ∃ v, matchedValue (name a) core v ∧ out !! name a = Some (validate a v).1.
Proof using EqualFold.
  intros Hs Hpost. simpl. rewrite Hs. intros Hout.
  destruct (validateAttributes_value _ _ _ _ _ _ _ Hout Hpost) as (hit & Hscan & Hv).
  exists hit. split; [|done]. by apply scanFields_Some in Hscan as [_ ?].
Qed.

(** X7. Renaming a field of the document to a key not yet in it that every
    declared attribute name matches exactly when it matches the old key
    does not change the result. *)
Theorem Validate_rename_key (s : Schema) (core : gmap string Value)
    (k k' : string) (v : Value) :
  core !! k = Some v →
  core !! k' = None →
  (∀ a, a ∈ Attributes s → EqualFold (name a) k' = EqualFold (name a) k) →
  Validate s (VMap (<[k' := v]> (delete k core))) = Validate s (VMap core).
Proof using EqualFold.
  intros Hk Hk' Hfold. simpl. apply validateAttributes_ext. intros a Ha.
  rewrite (scanFields_delete _ k v core Hk).
  rewrite (scanFields_Permutation _ _ ((k', v) :: map_to_list (delete k core))).
  - simpl. by rewrite (Hfold a Ha).
  - apply map_to_list_insert. rewrite lookup_delete_ne; [done|].
    intros ->. by rewrite Hk in Hk'.
Qed.

(** X10. A field whose value is nil counts as absent: when every declared
    attribute whose name matches the key [k] has at most one matching key,
    taking the nil-valued field [k] out of the document does not change the
    result. *)
Theorem Validate_nil_field (s : Schema) (core : gmap string Value) (k : string) :
  core !! k = Some VNil →
  (∀ a, a ∈ Attributes s → foldMatch (name a) k → atMostOneMatch (name a) core) →
  Validate s (VMap (delete k core)) = Validate s (VMap core).
Proof using EqualFold.
  intros Hk Hat. simpl. apply validateAttributes_ext. intros a Ha.
  rewrite (scanFields_delete _ k VNil core Hk). simpl.
  destruct (EqualFold (name a) k) eqn:Em; [|done].
  rewrite scanFields_found, scanFields_hits.
  destruct (hits (name a) (map_to_list (delete k core))) as [|[k2 v2] l] eqn:Eh;
    [done|]. exfalso.
  assert (Hin : (k2, v2) ∈ hits (name a) (map_to_list (delete k core))).
  { rewrite Eh. by left. }
  apply elem_of_hits in Hin as [Hin Hm2].
  apply lookup_delete_Some in Hin as [Hne Hin].
  apply Hne. apply (Hat a Ha Em); try done; apply elem_of_dom; eauto.
Qed.

(** X12. The empty document passes every attribute the absent marker:
    [Validate] succeeds on it exactly when every declared attribute
    accepts nil. *)
Theorem Validate_empty_document (s : Schema) :
  (∃ out, Validate s (VMap ∅) = (Some out, ValidationErrorNil))
  ↔ ∀ a, a ∈ Attributes s → accepts a VNil.
Proof using EqualFold.
  simpl. rewrite validateAttributes_success. split.
  - intros Hall a Ha. destruct (Hall a Ha) as (v & Hv & Hacc).
    rewrite scanFields_empty in Hv. by injection Hv as <-.
  - intros Hall a Ha. exists VNil. split; [apply scanFields_empty | by apply Hall].
Qed.

(** X13. Whether [Validate] succeeds does not depend on the order in which
    the schema declares its attributes; only which error a failure returns
    does. *)
Theorem Validate_attribute_order (s s' : Schema) (resource : Value) :
  Attributes s ≡ₚ Attributes s' →
  (∃ out, Validate s resource = (Some out, ValidationErrorNil))
  ↔ (∃ out, Validate s' resource = (Some out, ValidationErrorNil)).
Proof using EqualFold.
  intros Hperm. destruct resource as [| | | | |core]; try done.
  simpl. rewrite !validateAttributes_success. split.
  - intros Hall a Ha. apply Hall. by rewrite Hperm.
  - intros Hall a Ha. apply Hall. by rewrite <- Hperm.
Qed.

(** *** Further properties of path resolution *)

(** Induction on the attribute tree: a property holds of every attribute
    if it holds of an attribute whenever it holds of its sub-attributes. *)
Lemma CoreAttribute_tree_ind (P : CoreAttribute → Prop) :
  (∀ a, Forall P (subAttributes a) → P a) → ∀ a, P a.
Proof using Type.
  intros step. fix IH 1. intros [n m subs check raw]. apply step. simpl.
  induction subs as [|c subs IHs]; constructor; [apply IH | apply IHs].
Qed.

Lemma matchedAttribute_elem (n : string) (attributes : list CoreAttribute)
    (a : CoreAttribute) :
  matchedAttribute n attributes = Some a → a ∈ attributes.
Proof using Type.
  induction attributes as [|b rest IH]; simpl; [done|].
  destruct (EqualFold (name b) n).
  - intros [= ->]. by left.
  - intros Hm. right. by apply IH.
Qed.

(** Attributes behind the first match play no part in the loop. *)
Lemma matchedAttribute_first (n : string) (pre post : list CoreAttribute)
    (a : CoreAttribute) :
  Forall (λ b, EqualFold (name b) n = false) pre →
  EqualFold (name a) n = true →
  matchedAttribute n (pre ++ a :: post) = Some a.
Proof using Type.
  intros Hpre Ha. induction Hpre as [|b pre Hb _ IH]; simpl.
  - by rewrite Ha.
  - by rewrite Hb.
Qed.

(** What resolution can return, for the attributes below one node of the
    tree. *)
Lemma findAttribute_cases_below (operation : string) (parent : CoreAttribute) :
  ∀ path o e,
    findAttribute operation path (subAttributes parent) = (o, e) →
    (o = None ∧ e = ValidationErrorInvalidValue)
    ∨ (∃ a, o = Some a ∧ e = ValidationErrorNil
            ∧ cannotBePatched operation a = false
            ∧ reaches operation path (subAttributes parent) a).
Proof using Type.
  induction parent as [parent IH] using CoreAttribute_tree_ind.
  intros path o e. rewrite findAttribute_eq.
  destruct (ParsePath path) as [p|] eqn:Hp; [|intros [= <- <-]; by left].
  rewrite rangeAttributes_matched.
  destruct (matchedAttribute (AttributeName p) (subAttributes parent))
    as [b|] eqn:Hm; [|intros [= <- <-]; by left].
  destruct (cannotBePatched operation b) eqn:Hb; [intros [= <- <-]; by left|].
  destruct (negb (String.eqb (SubAttribute p) "")
            && bool_decide (0 < length (subAttributes b))) eqn:Hd.
  - apply andb_true_iff in Hd as [Hsub Hch].
    apply negb_true_iff, String.eqb_neq in Hsub.
    apply bool_decide_eq_true in Hch.
    intros Hrec.
    pose proof (matchedAttribute_elem _ _ _ Hm) as Hin.
    rewrite Forall_forall in IH.
    destruct (IH b Hin _ _ _ Hrec) as [?|(a & -> & -> & Hna & Hr)]; [by left|].
    right. exists a. split_and!; try done.
    apply (reaches_below _ _ _ p b a); try done.
    intros E. rewrite E in Hch. simpl in Hch. lia.
  - intros [= <- <-]. right. exists b. split_and!; try done.
    by apply (reaches_here _ _ _ p b).
Qed.

Lemma findAttribute_cases (operation path : string)
    (attributes : list CoreAttribute) (o : option CoreAttribute)
    (e : ValidationError) :
  findAttribute operation path attributes = (o, e) →
  (o = None ∧ e = ValidationErrorInvalidValue)
  ∨ (∃ a, o = Some a ∧ e = ValidationErrorNil
          ∧ cannotBePatched operation a = false
          ∧ reaches operation path attributes a).
Proof using Type.
  apply (findAttribute_cases_below operation
           (mkCoreAttribute "" attributeMutabilityReadWrite attributes
              (λ v, (v, ValidationErrorNil)) ∅)).
Qed.

(** The two shapes of what resolution returns. *)
Lemma findAttribute_shape (operation path : string)
    (attributes : list CoreAttribute) :
  findAttribute operation path attributes = (None, ValidationErrorInvalidValue)
  ∨ ∃ a, findAttribute operation path attributes = (Some a, ValidationErrorNil)
         ∧ cannotBePatched operation a = false.
Proof using Type.
  destruct (findAttribute operation path attributes) as [o e] eqn:Hf.
  destruct (findAttribute_cases _ _ _ _ _ Hf) as [[-> ->]|(a & -> & -> & Hnb & _)].
  - by left.
  - right. by exists a.
Qed.

(** X1. [findAttribute] returns either no attribute and the value error,
    or an attribute and the success sentinel; a returned attribute is one
    the resolution of the path reached, and the guard does not block it.
    It never returns the syntax error. *)
Theorem findAttribute_outcome (operation path : string)
    (attributes : list CoreAttribute) :
  findAttribute operation path attributes = (None, ValidationErrorInvalidValue)
  ∨ ∃ a, findAttribute operation path attributes = (Some a, ValidationErrorNil)
         ∧ cannotBePatched operation a = false
         ∧ reaches operation path attributes a.
Proof using Type.
  destruct (findAttribute operation path attributes) as [o e] eqn:Hf.
  destruct (findAttribute_cases _ _ _ _ _ Hf) as [[-> ->]|(a & -> & -> & Hnb & Hr)].
  - by left.
  - right. by exists a.
Qed.

(** X8. A matched attribute without sub-attributes is returned whatever
    sub-path remains: the rest of the path is not resolved against the
    schema. *)
Theorem findAttribute_leaf (operation path : string) (p : Path)
    (attributes : list CoreAttribute) (a : CoreAttribute) :
  ParsePath path = Some p →
  matchedAttribute (AttributeName p) attributes = Some a →
  cannotBePatched operation a = false →
  subAttributes a = [] →
  findAttribute operation path attributes = (Some a, ValidationErrorNil).
Proof using Type.
  intros Hp Hm Hb Hleaf.
  rewrite findAttribute_eq, Hp, rangeAttributes_matched, Hm, Hb, Hleaf.
  simpl. by rewrite andb_false_r.
Qed.

(** X9. The first attribute whose name matches decides the resolution:
    the attributes declared after it, a second one of a matching name
    included, and the unmatched ones before it, play no part. *)
Theorem findAttribute_first_match (operation path : string) (p : Path)
    (pre post : list CoreAttribute) (a : CoreAttribute) :
  ParsePath path = Some p →
  Forall (λ b, EqualFold (name b) (AttributeName p) = false) pre →
  EqualFold (name a) (AttributeName p) = true →
  findAttribute operation path (pre ++ a :: post)
  = findAttribute operation path [a].
Proof using Type.
  intros Hp Hpre Ha.
  rewrite !findAttribute_eq, Hp, !rangeAttributes_matched.
  rewrite (matchedAttribute_first _ pre post a Hpre Ha).
  simpl. by rewrite Ha.
Qed.

(** *** Further properties of patch validation *)

(** The loop over a concatenation. *)
Lemma validatePatchEntries_app (s : Schema) (operation : string)
    (l1 l2 : list (string * Value)) :
  (validatePatchEntries s operation (l1 ++ l2)).2
  = if decide ((validatePatchEntries s operation l1).2 = ValidationErrorNil)
    then (validatePatchEntries s operation l2).2
    else (validatePatchEntries s operation l1).2.
Proof using Type.
  induction l1 as [|[k v] rest IH]; simpl; [done|].
  destruct (findAttribute operation k (Attributes s)) as [attr err].
  destruct (decide (err ≠ ValidationErrorNil)) as [Hne|_];
    [by rewrite decide_False|].
  destruct attr as [attr|]; [|done].
  destruct (cannotBePatched operation attr); [done|].
  destruct (if negb (String.eqb operation "remove")
            then ([(name attr, v)], (validate attr v).2)
            else ([], ValidationErrorNil)) as [calls scimErr].
  destruct (decide (scimErr ≠ ValidationErrorNil)) as [Hne|_];
    [by rewrite decide_False|].
  destruct (validatePatchEntries s operation (rest ++ l2)) as [c12 e12].
  destruct (validatePatchEntries s operation rest) as [c1 e1].
  simpl in *. done.
Qed.

(** The loop succeeds exactly when every entry passes. *)
Lemma validatePatchEntries_success (s : Schema) (operation : string)
    (entries : list (string * Value)) :
  (validatePatchEntries s operation entries).2 = ValidationErrorNil
  ↔ ∀ k v, (k, v) ∈ entries →
      ∃ a, findAttribute operation k (Attributes s) = (Some a, ValidationErrorNil)
           ∧ (operation ≠ "remove" → accepts a v).
Proof using Type.
  induction entries as [|[k v] rest IH]; simpl.
  - split; [|done]. intros _ k v Hin. by apply not_elem_of_nil in Hin.
  - destruct (findAttribute_shape operation k (Attributes s))
      as [Hf|(a & Hf & Hnb)]; rewrite Hf.
    + rewrite decide_True by done. simpl. split; [done|]. intros Hall.
      destruct (Hall k v) as (a & Ha & _); [by left|]. by rewrite Hf in Ha.
    + rewrite decide_False by (by intros []). rewrite Hnb.
      unfold accepts.
      destruct (String.eqb operation "remove") eqn:Hop; simpl.
      * apply String.eqb_eq in Hop.
        destruct (validatePatchEntries s operation rest) as [calls e]. simpl in *.
        rewrite IH. split.
        -- intros Hall k' v' [[= -> ->]|Hin]%elem_of_cons; [|by apply Hall].
           exists a. by split.
        -- intros Hall k' v' Hin. apply Hall. by right.
      * apply String.eqb_neq in Hop.
        destruct (decide ((validate a v).2 ≠ ValidationErrorNil)) as [Hne|Heq].
        -- simpl. split; [done|]. intros Hall. exfalso.
           destruct (Hall k v) as (a' & Ha' & Hacc); [by left|].
           rewrite Hf in Ha'. injection Ha' as <-. by apply Hne, Hacc.
        -- apply dec_stable in Heq.
           destruct (validatePatchEntries s operation rest) as [calls e]. simpl in *.
           rewrite IH. split.
           ++ intros Hall k' v' [[= -> ->]|Hin]%elem_of_cons; [|by apply Hall].
              exists a. by split.
           ++ intros Hall k' v' Hin. apply Hall. by right.
Qed.

(** Where the error of the loop comes from. *)
Lemma validatePatchEntries_error (s : Schema) (operation : string)
    (entries : list (string * Value)) :
  (validatePatchEntries s operation entries).2 = ValidationErrorNil
  ∨ (validatePatchEntries s operation entries).2 = ValidationErrorInvalidValue
  ∨ (operation ≠ "remove"
     ∧ ∃ k v a, (k, v) ∈ entries
         ∧ findAttribute operation k (Attributes s) = (Some a, ValidationErrorNil)
         ∧ (validate a v).2 = (validatePatchEntries s operation entries).2).
Proof using Type.
  induction entries as [|[k v] rest IH]; simpl; [by left|].
  destruct (findAttribute_shape operation k (Attributes s))
    as [Hf|(a & Hf & Hnb)]; rewrite Hf.
  - rewrite decide_True by done. right. by left.
  - rewrite decide_False by (by intros []). rewrite Hnb.
    destruct (String.eqb operation "remove") eqn:Hop; simpl.
    + destruct (validatePatchEntries s operation rest) as [calls e]. simpl in *.
      destruct IH as [?|[?|(Hne & _)]]; [by left | right; by left |].
      apply String.eqb_eq in Hop. by destruct Hne.
    + apply String.eqb_neq in Hop.
      destruct (decide ((validate a v).2 ≠ ValidationErrorNil)) as [Hne|Heq]; simpl.
      * right. right. split; [done|]. exists k, v, a. split_and!; try done. by left.
      * destruct (validatePatchEntries s operation rest) as [calls e]. simpl in *.
        destruct IH as [?|[?|(_ & k' & v' & a' & Hin & Hf' & Hv)]];
          [by left | right; by left |].
        right. right. split; [done|]. exists k', v', a'. split_and!; try done.
        by right.
Qed.

(** X2. Patch validation succeeds exactly when every path of the
    instruction resolves to an attribute and, unless the operation is
    ["remove"], that attribute accepts the value; this holds for the loop in
    whatever order it visits the entries. *)
Theorem ValidatePatchOperationValue_succeeds_iff (s : Schema) (operation : string)
    (operationValue : gmap string Value) :
  (ValidatePatchOperationValue s operation operationValue = ValidationErrorNil
   ↔ ∀ k v, operationValue !! k = Some v →
       ∃ a, findAttribute operation k (Attributes s) = (Some a, ValidationErrorNil)
            ∧ (operation ≠ "remove" → accepts a v))
  ∧ ∀ entries, entries ≡ₚ map_to_list operationValue →
      ((validatePatchEntries s operation entries).2 = ValidationErrorNil
       ↔ ValidatePatchOperationValue s operation operationValue = ValidationErrorNil).
Proof using Type.
  unfold ValidatePatchOperationValue. split.
  - rewrite validatePatchEntries_success. split.
    + intros Hall k v Hk. apply Hall. by apply elem_of_map_to_list.
    + intros Hall k v Hk. apply Hall. by apply elem_of_map_to_list.
  - intros entries Hperm. rewrite !validatePatchEntries_success. split.
    + intros Hall k v Hk. apply Hall. by rewrite Hperm.
    + intros Hall k v Hk. apply Hall. by rewrite <- Hperm.
Qed.

(** X3. Patch validation returns the success sentinel, the value error, or
    an error that the [validate] of a resolved attribute returned on the
    value of its path; the last only when the operation is not ["remove"].
    A syntax error can only come from an attribute's own [validate]. *)
Theorem ValidatePatchOperationValue_error (s : Schema) (operation : string)
    (operationValue : gmap string Value) :
  ValidatePatchOperationValue s operation operationValue = ValidationErrorNil
  ∨ ValidatePatchOperationValue s operation operationValue
    = ValidationErrorInvalidValue
  ∨ (operation ≠ "remove"
     ∧ ∃ k v a, operationValue !! k = Some v
         ∧ findAttribute operation k (Attributes s) = (Some a, ValidationErrorNil)
         ∧ (validate a v).2
           = ValidatePatchOperationValue s operation operationValue).
Proof using Type.
  unfold ValidatePatchOperationValue.
  destruct (validatePatchEntries_error s operation (map_to_list operationValue))
    as [?|[?|(Hne & k & v & a & Hin & Hf & Hv)]]; [by left | right; by left |].
  right. right. split; [done|]. exists k, v, a. split_and!; try done.
  by apply elem_of_map_to_list.
Qed.

(** X11. Validating the entries of a concatenation, in that order, is
    validating the first part and, only if that succeeds, the second: the
    error is the one of the first entry that fails. *)
Theorem validatePatchEntries_sequence (s : Schema) (operation : string)
    (l1 l2 : list (string * Value)) :
  (validatePatchEntries s operation (l1 ++ l2)).2
  = match (validatePatchEntries s operation l1).2 with
    | ValidationErrorNil => (validatePatchEntries s operation l2).2
    | e => e
    end.
Proof using Type.
  rewrite validatePatchEntries_app.
  destruct ((validatePatchEntries s operation l1).2); by case_decide.
Qed.

(** X15. For ["remove"] the result depends on the paths of the instruction
    alone: two instructions with the same paths have the same result,
    whatever their values. *)
Theorem ValidatePatchOperationValue_remove_paths (s : Schema)
    (m m' : gmap string Value) :
  dom m = dom m' →
  ValidatePatchOperationValue s "remove" m
  = ValidatePatchOperationValue s "remove" m'.
Proof using Type.
  intros Hdom. unfold ValidatePatchOperationValue.
  assert (Hiff : (validatePatchEntries s "remove" (map_to_list m)).2
                   = ValidationErrorNil
                 ↔ (validatePatchEntries s "remove" (map_to_list m')).2
                   = ValidationErrorNil).
  { rewrite !validatePatchEntries_success.
    assert (Hside : ∀ m1 m2 : gmap string Value, dom m1 = dom m2 →
              (∀ k v, (k, v) ∈ map_to_list m1 →
                 ∃ a, findAttribute "remove" k (Attributes s)
                      = (Some a, ValidationErrorNil)
                      ∧ ("remove" ≠ "remove" → accepts a v)) →
              ∀ k v, (k, v) ∈ map_to_list m2 →
                 ∃ a, findAttribute "remove" k (Attributes s)
                      = (Some a, ValidationErrorNil)
                      ∧ ("remove" ≠ "remove" → accepts a v)).
    { intros m1 m2 Hd Hall k v Hin%elem_of_map_to_list.
      assert (Hk : k ∈ dom m1) by (rewrite Hd; apply elem_of_dom; eauto).
      apply elem_of_dom in Hk as [w Hw].
      destruct (Hall k w) as (a & Ha & _); [by apply elem_of_map_to_list|].
      exists a. by split. }
    split; apply Hside; done. }
  destruct (validatePatchEntries_error s "remove" (map_to_list m))
    as [H1|[H1|(Hne & _)]]; [| |done];
  destruct (validatePatchEntries_error s "remove" (map_to_list m'))
    as [H2|[H2|(Hne & _)]]; try done; try congruence.
  - apply Hiff in H1. congruence.
  - apply Hiff in H2. congruence.
Qed.

(** X14. An instruction with a path whose resolution reaches an attribute
    that the guard blocks for the operation, be it the addressed attribute
    or one above it, is rejected, whatever else the instruction holds. *)
Theorem ValidatePatchOperationValue_blocked (s : Schema) (operation : string)
    (operationValue : gmap string Value) (k : string) (v : Value)
    (a : CoreAttribute) :
  operationValue !! k = Some v →
  reaches operation k (Attributes s) a →
  cannotBePatched operation a = true →
  ValidatePatchOperationValue s operation operationValue ≠ ValidationErrorNil.
Proof using Type.
  intros Hk Hr Hb Hok. unfold ValidatePatchOperationValue in Hok.
  rewrite validatePatchEntries_success in Hok.
  destruct (Hok k v) as (a' & Hf & _); [by apply elem_of_map_to_list|].
  clear Hok Hk.
  induction Hr as [path attributes p a Hp Hm
                  |path attributes p b a Hp Hm Hnb Hsub Hch Hr IH].
  - by rewrite (findAttribute_blocked _ _ p _ a) in Hf.
  - rewrite (findAttribute_descend _ _ p _ b) in Hf by done. by apply IH.
Qed.

End Resolution.

(** *** The mutability guard *)

(** C2. [cannotBePatched] is the decision table: read-only is blocked for
    every operation, immutable for ["replace"] and ["remove"] and for no
    other operation, read-write and write-only for none. *)
Theorem cannotBePatched_table (op : string) (attr : CoreAttribute) :
  cannotBePatched op attr = blocked_table op (mutability attr).
Proof.
  unfold cannotBePatched, isImmutable, isReadOnly, blocked_table.
  destruct (mutability attr); simpl; try done.
  destruct (decide (op = "replace")) as [->|Hrep]; [done|].
  apply String.eqb_neq in Hrep. rewrite Hrep. simpl.
  destruct (decide (op = "remove")) as [->|Hrem]; [done|].
  apply String.eqb_neq in Hrem. by rewrite Hrem.
Qed.

(** *** Serialization *)

(** The loop fills the slots behind [pre] with the attributes' documents,
    in order. *)
Lemma fillRawAttributes_app (attrs : list CoreAttribute)
    (pre : list (gmap string Value)) :
  fillRawAttributes (length pre) attrs (pre ++ replicate (length attrs) ∅)
  = pre ++ (getRawAttributes <$> attrs).
Proof.
  revert pre. induction attrs as [|a rest IH]; intros pre; [done|].
  simpl.
  assert (Hset : <[length pre := getRawAttributes a]>
                   (pre ++ ∅ :: replicate (length rest) ∅)
                 = (pre ++ [getRawAttributes a]) ++ replicate (length rest) ∅).
  { rewrite <- (Nat.add_0_r (length pre)), insert_app_r, <- app_assoc. done. }
  rewrite Hset.
  replace (S (length pre)) with (length (pre ++ [getRawAttributes a]))
    by (rewrite length_app; simpl; lia).
  by rewrite IH, <- app_assoc.
Qed.

Lemma Schema_getRawAttributes_fmap (s : Schema) :
  Schema_getRawAttributes s = getRawAttributes <$> Attributes s.
Proof. apply (fillRawAttributes_app (Attributes s) []). Qed.

(** The members of the map literal. *)
Lemma MarshalJSON_argument_lookup (s : Schema) :
  MarshalJSON_argument s !! "id" = Some (RString (ID s))
  ∧ MarshalJSON_argument s !! "name" = Some (ROptional (Name s))
  ∧ MarshalJSON_argument s !! "description"
    = Some (RString (optional_Value (Description s)))
  ∧ MarshalJSON_argument s !! "attributes"
    = Some (RAttributes (getRawAttributes <$> Attributes s)).
Proof.
  unfold MarshalJSON_argument. split_and!.
  - by rewrite lookup_insert_eq.
  - by repeat (rewrite lookup_insert_ne by done); rewrite ?lookup_insert_eq.
  - repeat (rewrite lookup_insert_ne by done). by rewrite lookup_insert_eq.
  - repeat (rewrite lookup_insert_ne by done).
    by rewrite lookup_insert_eq, Schema_getRawAttributes_fmap.
Qed.

(** C9. The code departs from the claim at the name.  [MarshalJSON] hands
    [s.Name], the [optional.String] struct, to the encoder, where the
    description goes through [Value()]: for every schema the document has
    the empty object under [name], and the description as a string.  So an
    absent name is not an empty string or null as an absent description is
    (on [accountSchema]), and a present name, ["User"] on [userSchema],
    does not reach the document. *)
Theorem MarshalJSON_name_empty_object :
  (∀ s, MarshalJSON s !! "name" = Some (VMap ∅)
        ∧ MarshalJSON s !! "description"
          = Some (VString (match Description s with Some d => d | None => "" end)))
  ∧ (Name accountSchema = None
     ∧ MarshalJSON accountSchema !! "description" = Some (VString "")
     ∧ MarshalJSON accountSchema !! "name" ≠ Some (VString "")
     ∧ MarshalJSON accountSchema !! "name" ≠ Some VNil)
  ∧ (Name userSchema = Some "User"
     ∧ MarshalJSON userSchema !! "name" ≠ Some (VString "User")
     ∧ MarshalJSON userSchema !! "name" = MarshalJSON accountSchema !! "name").
Proof.
  assert (Hname : ∀ s, MarshalJSON s !! "name" = Some (VMap ∅)).
  { intros s. unfold MarshalJSON. rewrite lookup_fmap.
    by destruct (MarshalJSON_argument_lookup s) as (_ & -> & _). }
  assert (Hdesc : ∀ s, MarshalJSON s !! "description"
            = Some (VString (match Description s with Some d => d | None => "" end))).
  { intros s. unfold MarshalJSON. rewrite lookup_fmap.
    destruct (MarshalJSON_argument_lookup s) as (_ & _ & -> & _).
    simpl. by destruct (Description s). }
  split_and!; first [done | apply Hdesc | by rewrite !Hname].
Qed.

(** X16. The document of [MarshalJSON] has exactly the keys [id], [name],
    [description] and [attributes], for every schema; [id] is the schema's
    identifier, [description] the description or the empty string when
    absent, and [attributes] the array of the documents of the declared
    top-level attributes, of the same length and in the same order. *)
Theorem MarshalJSON_keys_and_attributes (s : Schema) :
  dom (MarshalJSON s) = {[ "id"; "name"; "description"; "attributes" ]}
  ∧ MarshalJSON s !! "id" = Some (VString (ID s))
  ∧ MarshalJSON s !! "description"
    = Some (VString (match Description s with Some d => d | None => "" end))
  ∧ ∃ l, MarshalJSON s !! "attributes" = Some (VSlice l)
         ∧ length l = length (Attributes s)
         ∧ ∀ i a, Attributes s !! i = Some a
                  → l !! i = Some (VMap (getRawAttributes a)).
Proof.
  destruct (MarshalJSON_argument_lookup s) as (Hid & _ & Hdesc & Hattrs).
  unfold MarshalJSON. split_and!.
  - rewrite dom_fmap_L. unfold MarshalJSON_argument.
    rewrite !dom_insert_L, dom_empty_L. set_solver.
  - by rewrite lookup_fmap, Hid.
  - rewrite lookup_fmap, Hdesc. simpl. by destruct (Description s).
  - exists (VMap <$> (getRawAttributes <$> Attributes s)). split_and!.
    + by rewrite lookup_fmap, Hattrs.
    + by rewrite !length_fmap.
    + intros i a Ha. by rewrite !list_lookup_fmap, Ha.
Qed.

(** ** The properties at concrete inputs *)

Lemma EqualFoldASCII_sym (x y : string) :
  EqualFoldASCII x y = true → EqualFoldASCII y x = true.
Proof. unfold EqualFoldASCII. by rewrite String.eqb_sym. Qed.

Lemma EqualFoldASCII_trans (x y z : string) :
  EqualFoldASCII x y = true → EqualFoldASCII y z = true →
  EqualFoldASCII x z = true.
Proof.
  unfold EqualFoldASCII. intros Hxy%String.eqb_eq Hyz%String.eqb_eq.
  rewrite Hxy, Hyz. apply String.eqb_refl.
Qed.

(** C5, as stated, fails: with [displayName] required, declared first and
    absent from the document, the two keys for [userName] are never
    scanned, and the error is the value error of [displayName]. *)
Lemma Validate_duplicate_keys_value_error :
  simpleAttribute "userName" attributeMutabilityReadWrite validateRequired
    ∈ Attributes accountSchema
  ∧ "userName" ≠ "USERNAME"
  ∧ duplicateDocument !! "userName" = Some (VString "a")
  ∧ duplicateDocument !! "USERNAME" = Some (VString "b")
  ∧ EqualFoldASCII "userName" "userName" = true
  ∧ EqualFoldASCII "userName" "USERNAME" = true
  ∧ Validate EqualFoldASCII accountSchema (VMap duplicateDocument)
    = (None, ValidationErrorInvalidValue)
  ∧ Validate EqualFoldASCII accountSchema (VMap duplicateDocument)
    ≠ (None, ValidationErrorInvalidSyntax).
Proof.
  split_and!.
  - right. left.
  - discriminate.
  - vm_compute. reflexivity.
  - vm_compute. reflexivity.
  - reflexivity.
  - reflexivity.
  - vm_compute. reflexivity.
  - vm_compute. discriminate.
Qed.

Lemma Validate_duplicate_keys_witness :
  ∃ e, Validate EqualFoldASCII accountSchema (VMap namedDuplicateDocument) = (None, e)
       ∧ e ≠ ValidationErrorNil
       ∧ ((∀ b v,
             b ∈ [simpleAttribute "displayName" attributeMutabilityReadWrite
                    validateRequired] →
             matchedValue EqualFoldASCII (name b) namedDuplicateDocument v →
             accepts b v) →
          e = ValidationErrorInvalidSyntax).
Proof.
  apply (Validate_duplicate_keys EqualFoldASCII accountSchema
           [simpleAttribute "displayName" attributeMutabilityReadWrite validateRequired]
           []
           (simpleAttribute "userName" attributeMutabilityReadWrite validateRequired)
           namedDuplicateDocument "userName" "USERNAME").
  - reflexivity.
  - discriminate.
  - apply elem_of_dom. exists (VString "a"). vm_compute. reflexivity.
  - apply elem_of_dom. exists (VString "b"). vm_compute. reflexivity.
  - reflexivity.
  - reflexivity.
Defined.

Lemma Validate_key_case_witness :
  Validate EqualFoldASCII userSchema (VMap {["USERNAME" := VString "x"]})
  = Validate EqualFoldASCII userSchema (VMap {["userName" := VString "x"]}).
Proof.
  apply (Validate_key_case EqualFoldASCII userSchema (VString "x")).
  - exact EqualFoldASCII_sym.
  - exact EqualFoldASCII_trans.
  - reflexivity.
Defined.

Lemma Validate_not_a_map_witness :
  Validate EqualFoldASCII userSchema (VString "a string")
    = (None, ValidationErrorInvalidSyntax)
  ∧ Validate EqualFoldASCII userSchema (VSlice [VNumber 1; VNumber 2; VNumber 3])
    = (None, ValidationErrorInvalidSyntax)
  ∧ Validate EqualFoldASCII userSchema VNil
    = (None, ValidationErrorInvalidSyntax).
Proof.
  split_and!; apply Validate_not_a_map; intros core; discriminate.
Defined.

Lemma Validate_ignores_undeclared_witness :
  Validate EqualFoldASCII userSchema
    (VMap (<["nickName" := VString "n"]> {["userName" := VString "x"]}))
  = Validate EqualFoldASCII userSchema (VMap {["userName" := VString "x"]})
  ∧ ∀ resource out e,
      Validate EqualFoldASCII userSchema resource = (Some out, e) →
      dom out = list_to_set (name <$> Attributes userSchema).
Proof.
  apply (Validate_ignores_undeclared EqualFoldASCII userSchema
           {["userName" := VString "x"]} "nickName" (VString "n")).
  intros a Ha. apply list_elem_of_In in Ha. simpl in Ha.
  destruct Ha as [<-|[<-|[]]]; reflexivity.
Defined.

Lemma findAttribute_blocked_parent_witness :
  cannotBePatched "add" readOnlyName = true
  ∧ findAttribute EqualFoldASCII parseDotted "add" "familyName"
      (subAttributes readOnlyName)
    = (Some (simpleAttribute "familyName" attributeMutabilityReadWrite validateString),
       ValidationErrorNil)
  ∧ findAttribute EqualFoldASCII parseDotted "add" "name.familyName" [readOnlyName]
    = (None, ValidationErrorInvalidValue).
Proof.
  split_and!; [reflexivity | reflexivity |].
  apply (findAttribute_blocked_parent EqualFoldASCII parseDotted
           "add" "name.familyName" [readOnlyName] readOnlyName).
  - apply (reaches_here EqualFoldASCII parseDotted "add" "name.familyName"
             [readOnlyName] (mkPath "name" "familyName") readOnlyName);
      reflexivity.
  - reflexivity.
Defined.

Lemma findAttribute_nested_witness :
  findAttribute EqualFoldASCII parseDotted "replace" "name.familyName"
      (Attributes userSchema)
    = (Some (simpleAttribute "familyName" attributeMutabilityReadWrite validateString),
       ValidationErrorNil)
  ∧ findAttribute EqualFoldASCII parseDotted "replace" "name.bogus"
      (Attributes userSchema)
    = (None, ValidationErrorInvalidValue).
Proof.
  apply (findAttribute_nested EqualFoldASCII parseDotted "replace"
           (Attributes userSchema)
           (complexAttribute "name" attributeMutabilityReadWrite
              [ simpleAttribute "familyName" attributeMutabilityReadWrite validateString;
                simpleAttribute "givenName" attributeMutabilityReadWrite validateString ]));
    reflexivity.
Defined.

Lemma ValidatePatchOperationValue_remove_witness :
  (validate (simpleAttribute "familyName" attributeMutabilityReadWrite validateString)
     (VNumber 3)).2 = ValidationErrorInvalidValue
  ∧ validatePatchEntries EqualFoldASCII parseDotted userSchema "remove"
      [("name.familyName", VNumber 3)]
    = ([], ValidationErrorNil)
  ∧ ValidatePatchOperationValue EqualFoldASCII parseDotted userSchema "remove"
      {["name.familyName" := VNumber 3]}
    = ValidationErrorNil.
Proof.
  split; [reflexivity|].
  apply (ValidatePatchOperationValue_remove EqualFoldASCII parseDotted userSchema
           {["name.familyName" := VNumber 3]} [("name.familyName", VNumber 3)]).
  - by rewrite map_to_list_singleton.
  - intros k v [<- <-]%lookup_singleton_Some.
    exists (simpleAttribute "familyName" attributeMutabilityReadWrite validateString).
    split; reflexivity.
Defined.

Lemma Validate_first_failure_witness :
  Validate EqualFoldASCII accountSchema (VMap displayNameDocument)
  = (None, ValidationErrorInvalidValue).
Proof.
  apply (Validate_first_failure EqualFoldASCII accountSchema
           [simpleAttribute "displayName" attributeMutabilityReadWrite validateRequired]
           []
           (simpleAttribute "userName" attributeMutabilityReadWrite validateRequired)
           displayNameDocument VNil ValidationErrorInvalidValue).
  - reflexivity.
  - intros b Hb. apply list_elem_of_singleton in Hb as ->. split.
    + intros k1 k2 Hk1 Hk2 _ _. unfold displayNameDocument in *.
      rewrite dom_singleton_L in Hk1, Hk2.
      apply elem_of_singleton in Hk1, Hk2. congruence.
    + exists (VString "d"). split; [|reflexivity].
      left. exists "displayName". split; reflexivity.
  - intros k1 k2 Hk1 Hk2 _ _. unfold displayNameDocument in *.
    rewrite dom_singleton_L in Hk1, Hk2.
    apply elem_of_singleton in Hk1, Hk2. congruence.
  - right. split; [reflexivity|]. intros k Hk. unfold displayNameDocument in Hk.
    rewrite dom_singleton_L in Hk. apply elem_of_singleton in Hk as ->.
    discriminate.
  - reflexivity.
  - discriminate.
Defined.

Lemma Validate_output_value_witness :
  ∃ v, matchedValue EqualFoldASCII "userName" {["userName" := VString "x"]} v
       ∧ (<["name" := VNil]> {["userName" := VString "x"]} : gmap string Value)
           !! "userName"
         = Some (validateRequired v).1.
Proof.
  apply (Validate_output_value EqualFoldASCII userSchema []
           [complexAttribute "name" attributeMutabilityReadWrite
              [ simpleAttribute "familyName" attributeMutabilityReadWrite validateString;
                simpleAttribute "givenName" attributeMutabilityReadWrite validateString ]]
           (simpleAttribute "userName" attributeMutabilityReadWrite validateRequired)
           {["userName" := VString "x"]}
           (<["name" := VNil]> {["userName" := VString "x"]})
           ValidationErrorNil).
  - reflexivity.
  - simpl. intros Hin. apply list_elem_of_singleton in Hin. discriminate.
  - vm_compute. reflexivity.
Defined.

Lemma Validate_rename_key_witness :
  Validate EqualFoldASCII userSchema
    (VMap (<["USERNAME" := VString "x"]>
             (delete "userName" {["userName" := VString "x"]})))
  = Validate EqualFoldASCII userSchema (VMap {["userName" := VString "x"]}).
Proof.
  apply (Validate_rename_key EqualFoldASCII userSchema
           {["userName" := VString "x"]} "userName" "USERNAME" (VString "x")).
  - reflexivity.
  - reflexivity.
  - intros a Ha. apply list_elem_of_In in Ha. simpl in Ha.
    destruct Ha as [<-|[<-|[]]]; reflexivity.
Defined.

Lemma Validate_nil_field_witness :
  Validate EqualFoldASCII userSchema (VMap (delete "name" nullNameDocument))
  = Validate EqualFoldASCII userSchema (VMap nullNameDocument).
Proof.
  apply (Validate_nil_field EqualFoldASCII userSchema nullNameDocument "name").
  - reflexivity.
  - intros a Ha. apply list_elem_of_In in Ha. simpl in Ha.
    destruct Ha as [<-|[<-|[]]]; [discriminate|].
    intros _ k1 k2 Hk1 Hk2 Hm1 Hm2. unfold nullNameDocument in *.
    rewrite dom_insert_L, dom_singleton_L in Hk1, Hk2.
    apply elem_of_union in Hk1 as [Hk1|Hk1], Hk2 as [Hk2|Hk2];
      apply elem_of_singleton in Hk1, Hk2; subst; done || discriminate.
Defined.

Lemma findAttribute_leaf_witness :
  findAttribute EqualFoldASCII parseDotted "replace" "userName.bogus"
    (Attributes userSchema)
  = (Some (simpleAttribute "userName" attributeMutabilityReadWrite validateRequired),
     ValidationErrorNil).
Proof.
  apply (findAttribute_leaf EqualFoldASCII parseDotted "replace" "userName.bogus"
           (mkPath "userName" "bogus")); reflexivity.
Defined.

Lemma findAttribute_first_match_witness :
  findAttribute EqualFoldASCII parseDotted "add" "username" clashingAttributes
  = findAttribute EqualFoldASCII parseDotted "add" "username"
      [simpleAttribute "userName" attributeMutabilityReadWrite validateRequired].
Proof.
  apply (findAttribute_first_match EqualFoldASCII parseDotted "add" "username"
           (mkPath "username" "")
           [simpleAttribute "displayName" attributeMutabilityReadWrite validateString]
           [simpleAttribute "USERNAME" attributeMutabilityReadOnly validateRequired]
           (simpleAttribute "userName" attributeMutabilityReadWrite validateRequired)).
  - reflexivity.
  - constructor; [reflexivity | constructor].
  - reflexivity.
Defined.

Lemma ValidatePatchOperationValue_remove_paths_witness :
  ValidatePatchOperationValue EqualFoldASCII parseDotted userSchema "remove"
    {["name.familyName" := VNumber 3]}
  = ValidatePatchOperationValue EqualFoldASCII parseDotted userSchema "remove"
      {["name.familyName" := VNil]}.
Proof.
  apply (ValidatePatchOperationValue_remove_paths EqualFoldASCII parseDotted
           userSchema {["name.familyName" := VNumber 3]}
           {["name.familyName" := VNil]}).
  by rewrite !dom_singleton_L.
Defined.

Lemma Validate_attribute_order_witness :
  (∃ out, Validate EqualFoldASCII accountSchema
            (VMap namedDuplicateDocument) = (Some out, ValidationErrorNil))
  ↔ (∃ out, Validate EqualFoldASCII
              (mkSchema (reverse (Attributes accountSchema)) None
                 "urn:example:schemas:Account" None)
              (VMap namedDuplicateDocument) = (Some out, ValidationErrorNil)).
Proof.
  apply (Validate_attribute_order EqualFoldASCII accountSchema
           (mkSchema (reverse (Attributes accountSchema)) None
              "urn:example:schemas:Account" None)
           (VMap namedDuplicateDocument)).
  simpl. by rewrite reverse_Permutation.
Defined.

Lemma ValidatePatchOperationValue_blocked_witness :
  ValidatePatchOperationValue EqualFoldASCII parseDotted
    (mkSchema [readOnlyName] None "urn:example:schemas:Name" None) "add"
    {["name.familyName" := VString "f"]}
  ≠ ValidationErrorNil.
Proof.
  apply (ValidatePatchOperationValue_blocked EqualFoldASCII parseDotted
           (mkSchema [readOnlyName] None "urn:example:schemas:Name" None) "add"
           {["name.familyName" := VString "f"]} "name.familyName" (VString "f")
           readOnlyName).
  - reflexivity.
  - apply (reaches_here EqualFoldASCII parseDotted "add" "name.familyName"
             [readOnlyName] (mkPath "name" "familyName") readOnlyName);
      reflexivity.
  - reflexivity.
Defined.
